(** * Kube event streaming controllers of Yatai

    A shallow embedding of [api-server/controllers/controllersv1/kube.go]:
    the two websocket handlers [GetPodKubeEvents] (cluster scoped) and
    [GetDeploymentKubeEvents] (deployment scoped), their [send] closures,
    the failure counter and the watchdog loop. *)

From Stdlib Require Import ZArith List Bool Lia.
From Stdlib Require Import Sorting.Permutation Sorting.Sorted.
From stdpp Require Import gmap strings list.
Import ListNotations.

Local Open Scope string_scope.
Local Open Scope Z_scope.

(** ** Time *)

(** A [time.Time] instant, as its offset in nanoseconds from Go's zero
    time (January 1, year 1, 00:00:00 UTC).  [metav1.Time] and
    [metav1.MicroTime] wrap such an instant. *)
Definition Time := Z.

Module time.
(** [t.IsZero()] *)
Definition IsZero (t : Time) : bool := t =? 0.
(** [t.Before(u)] *)
Definition Before (t u : Time) : bool := t <? u.
End time.

(** ** Kubernetes objects, as far as the handlers read them *)

Record ObjectReference := {
  Kind : string;
  UID : string;
}.

Record Event := {
  Name : string;
  InvolvedObject : ObjectReference;
  Message : string;
  EventTime : Time;
  LastTimestamp : Time;
  FirstTimestamp : Time;
}.

Record Pod := {
  PodUID : string;
  Labels : gmap string string;
}.

Record Deployment := {
  DeploymentName : string;
  KubeNamespace : string;
}.

(** Indexing a Go map with a key it does not hold gives the zero value. *)
Definition label (p : Pod) (key : string) : string :=
  default "" (Labels p !! key).

(** ** Errors *)

(** An [error] value is represented by its message; [None] is [nil]. *)
Definition error := string.

Module errors.
(** [errors.Wrap(err, msg)] *)
Definition Wrap (err : error) (msg : string) : error := msg +:+ ": " +:+ err.
End errors.

(** ** The ordering timestamp *)

(** The fallback chain that the comparator of [GetDeploymentKubeEvents]
    runs for each of its two arguments; [now] is what [time.Now()] gave. *)
Definition resolve (now : Time) (e : Event) : Time :=
  if negb (time.IsZero (EventTime e)) then EventTime e
  else if negb (time.IsZero (LastTimestamp e)) then LastTimestamp e
  else if negb (time.IsZero (FirstTimestamp e)) then FirstTimestamp e
  else now.

(** ** [sort.SliceStable] *)

(** The comparator may read the clock, so it threads a state [St].  The
    sort is the insertion pass of Go's stable sort (the whole algorithm
    for at most 20 elements): element [i] is swapped leftwards while it
    is [less] than its left neighbour.  [insert_left] works on the
    already placed prefix in reverse order. *)
Section SliceStable.
Context {A St : Type}.
Variable less : A -> A -> St -> bool * St.

Fixpoint insert_left (x : A) (rprefix : list A) (st : St) : list A * St :=
  match rprefix with
  | [] => ([x], st)
  | y :: rest =>
      let (b, st') := less x y st in
      if b then
        let (r, st'') := insert_left x rest st' in (y :: r, st'')
      else (x :: y :: rest, st')
  end.

Fixpoint insertion_pass (todo rprefix : list A) (st : St) : list A * St :=
  match todo with
  | [] => (rev rprefix, st)
  | x :: todo' =>
      let (rprefix', st') := insert_left x rprefix st in
      insertion_pass todo' rprefix' st'
  end.

Definition SliceStable (l : list A) (st : St) : list A * St :=
  insertion_pass l [] st.
End SliceStable.

(** The clock: the [k]-th call of [time.Now()] returns [clock k]. *)
Definition Clock := nat -> Time.

(** Comparator of [GetPodKubeEvents]. *)
Definition less_pod (ie je : Event) (k : nat) : bool * nat :=
  (time.Before (LastTimestamp ie) (LastTimestamp je), k).

(** Comparator of [GetDeploymentKubeEvents]: two clock reads per call. *)
Definition less_deployment (clock : Clock) (ie je : Event) (k : nat) : bool * nat :=
  let it := resolve (clock k) ie in
  let jt := resolve (clock (S k)) je in
  (time.Before it jt, S (S k)).

(** ** The response envelope *)

Inductive WsRespType := WsRespTypeSuccess | WsRespTypeError.

Record WsRespSchema := {
  Type_ : WsRespType;
  Message_ : string;
  Payload : list Event;
}.

(** ** Session state *)

(** What a session does to the outside: calls of [conn.WriteJSON] with
    the error they returned, and calls of [time.Sleep] (in seconds). *)
Inductive Effect :=
| WriteJSON (m : WsRespSchema) (r : option error)
| Sleep (seconds : Z).

(** The variables that the closures of one handler invocation share.
    [closeCh] is [true] once the channel is closed, [toClose] once the
    one-slot buffer holds its token, [connClosed] once [conn.Close()]
    ran.  [failedCount] is an [int32].  [seen] exists in
    [GetDeploymentKubeEvents] only.  [nowCalls] counts the calls of
    [time.Now()].  [returned] is [Some err] once the handler has left
    its watchdog loop with the local [err]. *)
Record Session := {
  closeCh : bool;
  toClose : bool;
  connClosed : bool;
  failedCount : Z;
  seen : gset string;
  nowCalls : nat;
  returned : option (option error);
  out : list Effect;
}.

Definition initial : Session :=
  {| closeCh := false; toClose := false; connClosed := false;
     failedCount := 0; seen := ∅; nowCalls := 0%nat;
     returned := None; out := [] |}.

Definition set_closeCh (b : bool) (s : Session) : Session :=
  {| closeCh := b; toClose := toClose s; connClosed := connClosed s;
     failedCount := failedCount s; seen := seen s; nowCalls := nowCalls s;
     returned := returned s; out := out s |}.

Definition set_toClose (b : bool) (s : Session) : Session :=
  {| closeCh := closeCh s; toClose := b; connClosed := connClosed s;
     failedCount := failedCount s; seen := seen s; nowCalls := nowCalls s;
     returned := returned s; out := out s |}.

Definition set_connClosed (b : bool) (s : Session) : Session :=
  {| closeCh := closeCh s; toClose := toClose s; connClosed := b;
     failedCount := failedCount s; seen := seen s; nowCalls := nowCalls s;
     returned := returned s; out := out s |}.

Definition set_failedCount (n : Z) (s : Session) : Session :=
  {| closeCh := closeCh s; toClose := toClose s; connClosed := connClosed s;
     failedCount := n; seen := seen s; nowCalls := nowCalls s;
     returned := returned s; out := out s |}.

Definition set_nowCalls (k : nat) (s : Session) : Session :=
  {| closeCh := closeCh s; toClose := toClose s; connClosed := connClosed s;
     failedCount := failedCount s; seen := seen s; nowCalls := k;
     returned := returned s; out := out s |}.

Definition set_returned (r : option (option error)) (s : Session) : Session :=
  {| closeCh := closeCh s; toClose := toClose s; connClosed := connClosed s;
     failedCount := failedCount s; seen := seen s; nowCalls := nowCalls s;
     returned := r; out := out s |}.

Definition emit (e : Effect) (s : Session) : Session :=
  {| closeCh := closeCh s; toClose := toClose s; connClosed := connClosed s;
     failedCount := failedCount s; seen := seen s; nowCalls := nowCalls s;
     returned := returned s; out := (out s ++ [e])%list |}.

(** ** The connection *)

Definition ErrClosed : error := "use of closed network connection".

(** [conn.WriteJSON(m)]: [w] is what the network makes of the write
    while the connection is open; after [conn.Close()] a write fails. *)
Definition conn_WriteJSON (w : option error) (m : WsRespSchema) (s : Session)
  : Session * option error :=
  let r := if connClosed s then Some ErrClosed else w in
  (emit (WriteJSON m r) s, r).

(** Modelled from the spec: [writeWsError] is defined outside this file.
    An error is surfaced over the connection, best effort, as an
    envelope of the same shape with type [error] and the error's text as
    message; without an error nothing is written. *)
Definition writeWsError (w : option error) (err : option error) (s : Session) : Session :=
  match err with
  | None => s
  | Some e =>
      fst (conn_WriteJSON w {| Type_ := WsRespTypeError; Message_ := e; Payload := [] |} s)
  end.

(** ** The failure counter *)

Definition wrap32 (z : Z) : Z := (z + 2 ^ 31) mod 2 ^ 32 - 2 ^ 31.
Arguments wrap32 : simpl never.

Definition maxFailed : Z := 10.

(** [failed]: [atomic.AddInt32(&failedCount, 1)], then
    [time.Sleep(time.Second * 10)]. *)
Definition failed (s : Session) : Session :=
  emit (Sleep 10) (set_failedCount (wrap32 (failedCount s + 1)) s).

(** ** [send] *)

(** What the world does during one call of [send]: the result of
    [eventLister.List], whether [closeCh] gets closed while the snapshot
    is built, and the results of the two possible writes. *)
Record SendObs := {
  list_result : error + list Event;
  raced : bool;
  write_result : option error;
  report_result : option error;
}.

(** The deferred function of [send]. *)
Definition send_deferred (o : SendObs) (err : option error) (s : Session)
  : Session * option error :=
  let s := writeWsError (report_result o) err s in
  (match err with Some _ => failed s | None => s end, err).

Definition success (events : list Event) : WsRespSchema :=
  {| Type_ := WsRespTypeSuccess; Message_ := ""; Payload := events |}.

(** [send] of [GetPodKubeEvents].  The result carries the value of the
    local [err] when the call ends. *)
Definition send_pod (filter : Event -> bool) (o : SendObs) (s : Session)
  : Session * option error :=
  if closeCh s then (s, None)
  else
    match list_result o with
    | inl e => send_deferred o (Some (errors.Wrap e "list events")) s
    | inr events =>
        let _events := List.filter filter events in
        let (_events, k) := SliceStable less_pod _events (nowCalls s) in
        let s := set_closeCh (closeCh s || raced o) (set_nowCalls k s) in
        let (s, err) := conn_WriteJSON (write_result o) (success _events) s in
        match err with
        | Some e => send_deferred o (Some (errors.Wrap e "ws write json")) s
        | None => send_deferred o None s
        end
    end.

(** [_, ok := seen[key]] *)
Definition has_key (seen : gset string) (key : string) : bool :=
  bool_decide (key ∈ seen).
Arguments has_key : simpl never.

(** [send] of [GetDeploymentKubeEvents]. *)
Definition send_deployment (clock : Clock) (eventFilter : Event -> bool)
  (o : SendObs) (s : Session) : Session * option error :=
  if closeCh s then (s, None)
  else
    match list_result o with
    | inl e => send_deferred o (Some (errors.Wrap e "list events")) s
    | inr events =>
        let _events :=
          List.filter
            (fun event => eventFilter event && negb (has_key (seen s) (Message event)))
            events in
        let (_events, k) := SliceStable (less_deployment clock) _events (nowCalls s) in
        let s := set_closeCh (closeCh s || raced o) (set_nowCalls k s) in
        if closeCh s then send_deferred o None s
        else
          let (s, err) := conn_WriteJSON (write_result o) (success _events) s in
          send_deferred o err s
    end.

(** ** Cancellation *)

(** [doClose]: a non-blocking send of the token into the one-slot buffer
    of [toClose]. *)
Definition doClose (s : Session) : Session := set_toClose true s.

(** The goroutine that waits for [ctx.Done()] or for the token and then
    closes [closeCh]; it runs once. *)
Definition forward (s : Session) : Session :=
  if closeCh s then s
  else if toClose s then set_closeCh true (set_toClose false s)
  else s.

Definition ctx_done (s : Session) : Session :=
  if closeCh s then s else set_closeCh true s.

(** ** The watchdog loop and the handler's return *)

Definition too_frequently : error := "ws events failed too frequently!".

(** One iteration of the loop: [Some err] when the loop returns, with
    the value that the handler's [err] has then; [None] when it goes on
    to wait for the next tick. *)
Definition watchdog (s : Session) : option (option error) :=
  if closeCh s then Some None
  else if failedCount s >? maxFailed then Some (Some too_frequently)
  else None.

(** The deferred calls that run when the handler returns after
    [defer doClose()]: [doClose()], [writeWsError(conn, err)],
    [conn.Close()]. *)
Definition handler_exit (w : option error) (err : option error) (s : Session) : Session :=
  set_returned (Some err) (set_connClosed true (writeWsError w err (doClose s))).

(** The same for a return before [defer doClose()]. *)
Definition early_exit (w : option error) (err : option error) (s : Session) : Session :=
  set_returned (Some err) (set_connClosed true (writeWsError w err s)).

(** ** The streaming phase *)

Inductive Variant := PodScoped | DeploymentScoped.

Definition send (v : Variant) (clock : Clock) (filter : Event -> bool)
  : SendObs -> Session -> Session * option error :=
  match v with
  | PodScoped => send_pod filter
  | DeploymentScoped => send_deployment clock filter
  end.

(** What can happen to an open session, one at a time: the eager call of
    [send]; an add, update or delete callback of the informer with its
    object ([None] when the object is no [*corev1.Event]); an iteration
    of the watchdog loop ([w] is the result of the write in the
    handler's deferred [writeWsError]); a failed [conn.ReadMessage] in
    the read monitor; [ctx.Done()]; the closing goroutine taking the
    token. *)
Inductive Step :=
| Trigger (o : SendObs)
| Notify (obj : option Event) (o : SendObs)
| Poll (w : option error)
| ReadErr
| CtxDone
| Forward.

Definition step (v : Variant) (clock : Clock) (filter : Event -> bool)
  (s : Session) (st : Step) : Session :=
  match st with
  | Trigger o => fst (send v clock filter o s)
  | Notify obj o =>
      match obj with
      | Some event => if filter event then fst (send v clock filter o s) else s
      | None => s
      end
  | Poll w =>
      match returned s with
      | Some _ => s
      | None =>
          match watchdog s with
          | Some err => handler_exit w err s
          | None => s
          end
      end
  | ReadErr => doClose s
  | CtxDone => ctx_done s
  | Forward => forward s
  end.

Definition run (v : Variant) (clock : Clock) (filter : Event -> bool)
  (steps : list Step) (s : Session) : Session :=
  fold_left (step v clock filter) steps s.

(** The snapshots delivered so far: payloads of the success envelopes
    whose write went through. *)
Definition pushed (e : Effect) : option (list Event) :=
  match e with
  | WriteJSON m None =>
      match Type_ m with WsRespTypeSuccess => Some (Payload m) | WsRespTypeError => None end
  | _ => None
  end.

Definition pushes (s : Session) : list (list Event) := omap pushed (out s).

(** The number of send failures so far: each ends in its cooldown. *)
Definition is_cooldown (e : Effect) : bool :=
  match e with Sleep _ => true | WriteJSON _ _ => false end.

Definition failures (s : Session) : Z := Z.of_nat (length (List.filter is_cooldown (out s))).

(** ** The handlers *)

Inductive Task := CloseForwarder | ReadMonitor | CacheListener | Watchdog.

Section Handlers.
(** [consts.KubeEventResourceKindPod], [consts.KubeLabelYataiDeployment] *)
Variable KubeEventResourceKindPod : string.
Variable KubeLabelYataiDeployment : string.

(** The filter that both handlers install for a [pod_name]. *)
Definition pod_filter (pod : Pod) (event : Event) : bool :=
  String.eqb (Kind (InvolvedObject event)) KubeEventResourceKindPod
  && String.eqb (UID (InvolvedObject event)) (PodUID pod).

(** What the collaborators answer to one request of [GetPodKubeEvents]. *)
Record PodRequest := {
  p_Upgrade : option error;
  p_GetCluster : option error;
  p_canView : option error;
  p_namespace : string;
  p_pod_name : string;
  p_GetKubeCliSet : option error;
  p_podsGet : error + Pod;
  p_GetEventInformer : option error;
  p_report : option error;
}.

(** Lines 88-112: the filter of [GetPodKubeEvents]. *)
Definition GetPodKubeEvents_filter (req : PodRequest) : error + (Event -> bool) :=
  let filter := fun _ : Event => true in
  if String.eqb (p_pod_name req) "" then inr filter
  else
    match p_GetKubeCliSet req with
    | Some e => inl e
    | None =>
        match p_podsGet req with
        | inl e => inl e
        | inr pod => inr (pod_filter pod)
        end
    end.

(** The handler: the tasks it has started and the session it leaves,
    for the eager [send] seeing [o0] and the later [steps]. *)
Definition GetPodKubeEvents (clock : Clock) (req : PodRequest)
  (o0 : SendObs) (steps : list Step) : list Task * Session :=
  match p_Upgrade req with
  | Some e => ([], set_returned (Some (Some e)) initial)
  | None =>
  match p_GetCluster req with
  | Some e => ([], early_exit (p_report req) (Some e) initial)
  | None =>
  match p_canView req with
  | Some e => ([], early_exit (p_report req) (Some e) initial)
  | None =>
  let tasks := [CloseForwarder; ReadMonitor] in
  match GetPodKubeEvents_filter req with
  | inl e => (tasks, handler_exit (p_report req) (Some e) initial)
  | inr filter =>
  match p_GetEventInformer req with
  | Some e =>
      (tasks, handler_exit (p_report req) (Some (errors.Wrap e "get event informer")) initial)
  | None =>
      ((tasks ++ [CacheListener; Watchdog])%list,
       run PodScoped clock filter (Trigger o0 :: steps) initial)
  end end end end end.

(** What the collaborators answer to one request of
    [GetDeploymentKubeEvents]. *)
Record DeploymentRequest := {
  d_Upgrade : option error;
  d_GetDeployment : error + Deployment;
  d_canView : option error;
  d_GetCluster : option error;
  d_MakeDeploymentKubeEventFilter : error + (Event -> bool);
  d_pod_name : string;
  d_GetKubeCliSet : option error;
  d_podsGet : error + Pod;
  d_GetEventInformer : option error;
  d_report : option error;
}.

(** [errors.Errorf("pod %s not in this deployment", podName)] *)
Definition not_in_this_deployment (podName : string) : error :=
  "pod " +:+ podName +:+ " not in this deployment".

(** Lines 298-328: the filter of [GetDeploymentKubeEvents]. *)
Definition GetDeploymentKubeEvents_filter (req : DeploymentRequest)
  (deployment : Deployment) : error + (Event -> bool) :=
  match d_MakeDeploymentKubeEventFilter req with
  | inl e => inl e
  | inr eventFilter =>
      let podName := d_pod_name req in
      if String.eqb podName "" then inr eventFilter
      else
        match d_GetKubeCliSet req with
        | Some e => inl e
        | None =>
            match d_podsGet req with
            | inl e => inl e
            | inr pod =>
                if negb (String.eqb (label pod KubeLabelYataiDeployment)
                           (DeploymentName deployment))
                then inl (not_in_this_deployment podName)
                else inr (pod_filter pod)
            end
        end
  end.

Definition GetDeploymentKubeEvents (clock : Clock) (req : DeploymentRequest)
  (o0 : SendObs) (steps : list Step) : list Task * Session :=
  match d_Upgrade req with
  | Some e => ([], set_returned (Some (Some e)) initial)
  | None =>
  match d_GetDeployment req with
  | inl e => ([], early_exit (d_report req) (Some e) initial)
  | inr deployment =>
  match d_canView req with
  | Some e => ([], early_exit (d_report req) (Some e) initial)
  | None =>
  let tasks := [CloseForwarder; ReadMonitor] in
  match d_GetCluster req with
  | Some e => (tasks, handler_exit (d_report req) (Some e) initial)
  | None =>
  match GetDeploymentKubeEvents_filter req deployment with
  | inl e => (tasks, handler_exit (d_report req) (Some e) initial)
  | inr eventFilter =>
  match d_GetEventInformer req with
  | Some e =>
      (tasks, handler_exit (d_report req) (Some (errors.Wrap e "get event informer")) initial)
  | None =>
      ((tasks ++ [CacheListener; Watchdog])%list,
       run DeploymentScoped clock eventFilter (Trigger o0 :: steps) initial)
  end end end end end end.
End Handlers.

(** ** Orders on lists, by a key *)

Section Keyed.
Context {A : Type}.
Variable key : A -> Z.

Definition descending : list A -> Prop := StronglySorted (fun a b => key b <= key a).
Definition ascending : list A -> Prop := StronglySorted (fun a b => key a <= key b).

(** The elements of key [t], in their order. *)
Definition with_key (t : Z) : list A -> list A := List.filter (fun a => key a =? t).
End Keyed.

(** ** Sample data and auxiliary predicates *)

Definition ev (name msg : string) (et lt ft : Time) : Event :=
  {| Name := name; InvolvedObject := {| Kind := "Pod"; UID := "u" |};
     Message := msg; EventTime := et; LastTimestamp := lt; FirstTimestamp := ft |}.

Definition delivered (events : list Event) : SendObs :=
  {| list_result := inr events; raced := false;
     write_result := None; report_result := None |}.

Definition all_events : Event -> bool := fun _ => true.

(** An event with at least one of its three timestamps set. *)
Definition stamped (e : Event) : Prop :=
  time.IsZero (EventTime e) && time.IsZero (LastTimestamp e)
  && time.IsZero (FirstTimestamp e) = false.

Definition is_write (e : Effect) : Prop :=
  match e with WriteJSON _ _ => True | Sleep _ => False end.

Definition req_all_events : PodRequest :=
  {| p_Upgrade := None; p_GetCluster := None; p_canView := None;
     p_namespace := "yatai"; p_pod_name := "";
     p_GetKubeCliSet := None; p_podsGet := inl "not found";
     p_GetEventInformer := None; p_report := None |}.

Definition req_foreign_pod : DeploymentRequest :=
  {| d_Upgrade := None;
     d_GetDeployment := inr {| DeploymentName := "iris"; KubeNamespace := "yatai" |};
     d_canView := None; d_GetCluster := None;
     d_MakeDeploymentKubeEventFilter := inr all_events;
     d_pod_name := "fraud-7c9d"; d_GetKubeCliSet := None;
     d_podsGet := inr {| PodUID := "uid-1";
                         Labels := {[ "yatai.ai/deployment" := "fraud" ]} |};
     d_GetEventInformer := None; d_report := None |}.

(** A failure of the connection upgrade, of the first lookup or of the
    authorization check. *)
Definition p_fails_early (req : PodRequest) : bool :=
  bool_decide (is_Some (p_Upgrade req)) || bool_decide (is_Some (p_GetCluster req))
  || bool_decide (is_Some (p_canView req)).

Definition d_fails_early (req : DeploymentRequest) : bool :=
  bool_decide (is_Some (d_Upgrade req))
  || match d_GetDeployment req with inl _ => true | inr _ => false end
  || bool_decide (is_Some (d_canView req)).

(** A failure of a later step: cluster lookup, filter construction (with
    the pod lookup and the membership check), informer acquisition. *)
Definition p_fails_late (KindPod : string) (req : PodRequest) : bool :=
  match GetPodKubeEvents_filter KindPod req with inl _ => true | inr _ => false end
  || bool_decide (is_Some (p_GetEventInformer req)).

Definition d_fails_late (KindPod LabelKey : string) (req : DeploymentRequest) : bool :=
  bool_decide (is_Some (d_GetCluster req))
  || match d_GetDeployment req with
     | inr deployment =>
         match GetDeploymentKubeEvents_filter KindPod LabelKey req deployment with
         | inl _ => true
         | inr _ => false
         end
     | inl _ => false
     end
  || bool_decide (is_Some (d_GetEventInformer req)).

(** The handler has returned an error and has sent no snapshot. *)
Definition aborted (r : list Task * Session) : Prop :=
  (exists e, returned (snd r) = Some (Some e)) /\ pushes (snd r) = [].

Definition req_no_cluster : DeploymentRequest :=
  {| d_Upgrade := None;
     d_GetDeployment := inr {| DeploymentName := "iris"; KubeNamespace := "yatai" |};
     d_canView := None; d_GetCluster := Some "cluster not found";
     d_MakeDeploymentKubeEventFilter := inr all_events;
     d_pod_name := ""; d_GetKubeCliSet := None; d_podsGet := inl "not found";
     d_GetEventInformer := None; d_report := None |}.

Definition list_fails : SendObs :=
  {| list_result := inl "cache not synced"; raced := false;
     write_result := None; report_result := None |}.

Definition write_fails (events : list Event) : SendObs :=
  {| list_result := inr events; raced := false;
     write_result := Some "broken pipe"; report_result := Some "broken pipe" |}.

Definition eleven_failures : list Step := repeat (Trigger list_fails) 11.

(** The envelope that reports an error. *)
Definition error_envelope (e : error) : WsRespSchema :=
  {| Type_ := WsRespTypeError; Message_ := e; Payload := [] |}.

(** A session whose [closeCh] is closed. *)
Definition cancelled : Session := set_closeCh true initial.

Definition three_events : list Event :=
  [ev "c" "pulled" 0 9 0; ev "a" "scheduled" 0 3 0; ev "b" "created" 0 3 0].

Definition stamped_events : list Event :=
  [ev "c" "started" 9 0 0; ev "a" "scheduled" 0 3 0; ev "b" "created" 0 0 3].

Definition only_a (e : Event) : bool := String.eqb (Name e) "a".

Definition req_no_informer : PodRequest :=
  {| p_Upgrade := None; p_GetCluster := None; p_canView := None;
     p_namespace := "yatai"; p_pod_name := "";
     p_GetKubeCliSet := None; p_podsGet := inl "not found";
     p_GetEventInformer := Some "cache sync timeout"; p_report := None |}.

(** * Properties *)

(** ** Sample runs *)


Example sort_deployment_example :
  map Name (fst (SliceStable (less_deployment (fun _ => 100))
                   [ev "a" "m" 5 0 0; ev "b" "m" 0 3 0; ev "c" "m" 0 0 4; ev "d" "m" 0 3 9] 0%nat))
  = ["b"; "d"; "c"; "a"].
Proof. reflexivity. Qed.

Example sort_pod_example :
  map Name (fst (SliceStable less_pod
                   [ev "a" "m" 0 5 0; ev "b" "m" 0 3 0; ev "c" "m" 9 3 0; ev "d" "m" 0 1 0] 0%nat))
  = ["d"; "b"; "c"; "a"].
Proof. reflexivity. Qed.

(** ** The timestamp resolver *)

Lemma IsZero_false (t : Time) : time.IsZero t = false <-> t <> 0.
Proof. unfold time.IsZero. apply Z.eqb_neq. Qed.

Lemma IsZero_true (t : Time) : time.IsZero t = true <-> t = 0.
Proof. unfold time.IsZero. apply Z.eqb_eq. Qed.

(** C3: the resolver returns the explicit event time when it is set,
    otherwise the last-observed time when that is set, otherwise the
    first-observed time when that is set, otherwise the current instant;
    with only the first-observed time set it returns exactly that. *)
Theorem resolve_fallback_chain (now : Time) (e : Event) :
  (time.IsZero (EventTime e) = false -> resolve now e = EventTime e) /\
  (time.IsZero (EventTime e) = true ->
   time.IsZero (LastTimestamp e) = false -> resolve now e = LastTimestamp e) /\
  (time.IsZero (EventTime e) = true ->
   time.IsZero (LastTimestamp e) = true ->
   time.IsZero (FirstTimestamp e) = false -> resolve now e = FirstTimestamp e) /\
  (time.IsZero (EventTime e) = true ->
   time.IsZero (LastTimestamp e) = true ->
   time.IsZero (FirstTimestamp e) = true -> resolve now e = now).
Proof.
  unfold resolve.
  repeat split; intros; repeat match goal with H : _ = _ |- _ => rewrite H end;
    reflexivity.
Qed.

Lemma resolve_fallback_chain_witness :
  resolve 100 (ev "a" "m" 0 0 4) = 4 /\ resolve 100 (ev "b" "m" 0 0 0) = 100.
Proof.
  split.
  - apply (resolve_fallback_chain 100 (ev "a" "m" 0 0 4)); reflexivity.
  - apply (resolve_fallback_chain 100 (ev "b" "m" 0 0 0)); reflexivity.
Defined.

(** The comparator of the deployment handler orders by the resolved
    timestamps. *)
Lemma less_deployment_resolve clock ie je k :
  fst (less_deployment clock ie je k)
  = time.Before (resolve (clock k) ie) (resolve (clock (S k)) je).
Proof. reflexivity. Qed.

(** ** [sort.SliceStable] rearranges *)

Section SliceStable_perm.
Context {A St : Type}.
Variable less : A -> A -> St -> bool * St.

Lemma insert_left_perm x rp st :
  Permutation (x :: rp) (fst (insert_left less x rp st)).
Proof.
  revert st. induction rp as [|y rest IH]; intros st; simpl.
  - apply Permutation_refl.
  - destruct (less x y st) as [b st']. destruct b.
    + specialize (IH st'). destruct (insert_left less x rest st') as [r st''].
      simpl in *. rewrite perm_swap. apply perm_skip, IH.
    + apply Permutation_refl.
Qed.

Lemma insertion_pass_perm todo rp st :
  Permutation (rev rp ++ todo) (fst (insertion_pass less todo rp st)).
Proof.
  revert rp st. induction todo as [|x todo IH]; intros rp st; simpl.
  - rewrite app_nil_r. apply Permutation_refl.
  - pose proof (insert_left_perm x rp st) as Hi.
    destruct (insert_left less x rp st) as [rp' st']. simpl in Hi.
    rewrite <- IH.
    rewrite <- (Permutation_rev rp'), <- Hi, <- (Permutation_rev rp).
    symmetry. apply Permutation_middle.
Qed.

Lemma SliceStable_perm l st : Permutation l (fst (SliceStable less l st)).
Proof. apply (insertion_pass_perm l [] st). Qed.
End SliceStable_perm.

(** ** [sort.SliceStable] with a comparator that compares keys *)

Section SliceStable_keyed.
Context {A St : Type}.
Variable less : A -> A -> St -> bool * St.
Variable key : A -> Z.
Variable P : A -> Prop.
Hypothesis less_key :
  forall x y st, P x -> P y -> fst (less x y st) = (key x <? key y).

Lemma insert_left_Forall x rp st :
  P x -> Forall P rp -> Forall P (fst (insert_left less x rp st)).
Proof.
  intros Hx Hrp. eapply Permutation_Forall; [apply insert_left_perm|].
  constructor; assumption.
Qed.

Lemma insert_left_descending x rp st :
  P x -> Forall P rp -> descending key rp ->
  descending key (fst (insert_left less x rp st)).
Proof.
  intros Hx. revert st. induction rp as [|y rest IH]; intros st HP Hs; simpl.
  - repeat constructor.
  - pose proof (less_key x y st Hx) as Hl.
    inversion HP as [|? ? Hy HP']; subst. specialize (Hl Hy).
    inversion Hs as [|? ? Hs' Hall]; subst.
    destruct (less x y st) as [b st']. simpl in Hl. subst b.
    destruct (Z.ltb_spec (key x) (key y)) as [Hlt|Hge].
    + specialize (IH st' HP' Hs').
      pose proof (insert_left_perm less x rest st') as Hp.
      destruct (insert_left less x rest st') as [r st'']. simpl in *.
      constructor; [exact IH|].
      eapply Permutation_Forall; [exact Hp|].
      constructor; [lia | exact Hall].
    + constructor; [exact Hs|].
      constructor; [lia|].
      eapply Forall_impl; [exact Hall|]. simpl. intros a Ha. lia.
Qed.

(** The new element goes behind the placed elements of the same key. *)
Lemma insert_left_stable t x rp st :
  P x -> Forall P rp ->
  with_key key t (fst (insert_left less x rp st)) = (with_key key t [x] ++ with_key key t rp)%list.
Proof.
  intros Hx. revert st. induction rp as [|y rest IH]; intros st HP.
  - simpl. symmetry. apply app_nil_r.
  - inversion HP as [|? ? Hy HP']; subst.
    pose proof (less_key x y st Hx Hy) as Hl. simpl.
    destruct (less x y st) as [b st']. simpl in Hl. subst b.
    destruct (Z.ltb_spec (key x) (key y)) as [Hlt|Hge].
    + specialize (IH st' HP').
      destruct (insert_left less x rest st') as [r st'']. simpl in IH.
      unfold with_key in *. simpl in *. rewrite IH.
      destruct (Z.eqb_spec (key x) t), (Z.eqb_spec (key y) t);
        try reflexivity; lia.
    + unfold with_key. simpl.
      destruct (key x =? t), (key y =? t); reflexivity.
Qed.

Lemma with_key_rev t l : with_key key t (rev l) = rev (with_key key t l).
Proof.
  unfold with_key. induction l as [|a l IH]; simpl; [reflexivity|].
  rewrite List.filter_app, IH. simpl.
  destruct (key a =? t); simpl; [reflexivity | apply app_nil_r].
Qed.

Lemma ascending_snoc l a :
  ascending key l -> Forall (fun b => key b <= key a) l -> ascending key (l ++ [a]).
Proof.
  unfold ascending. induction 1 as [|b l Hs IH Hall]; intros Ha; simpl.
  - repeat constructor.
  - inversion Ha as [|? ? Hba Ha']; subst.
    constructor; [apply IH, Ha'|].
    apply Forall_app. split; [exact Hall | constructor; [exact Hba | constructor]].
Qed.

Lemma descending_rev l : descending key l -> ascending key (rev l).
Proof.
  induction 1 as [|a l Hs IH Hall]; simpl; [constructor|].
  apply ascending_snoc; [exact IH|].
  eapply Permutation_Forall; [apply Permutation_rev | exact Hall].
Qed.

Lemma insertion_pass_keyed t todo rp st :
  Forall P todo -> Forall P rp -> descending key rp ->
  let r := fst (insertion_pass less todo rp st) in
  ascending key r /\ with_key key t r = (with_key key t (rev rp) ++ with_key key t todo)%list.
Proof.
  revert rp st. induction todo as [|x todo IH]; intros rp st Ht Hrp Hs; simpl.
  - split; [apply descending_rev, Hs | symmetry; apply app_nil_r].
  - inversion Ht as [|? ? Hx Ht']; subst.
    pose proof (insert_left_Forall x rp st Hx Hrp) as HF.
    pose proof (insert_left_descending x rp st Hx Hrp Hs) as HD.
    pose proof (insert_left_stable t x rp st Hx Hrp) as HS.
    destruct (insert_left less x rp st) as [rp' st']. simpl in HF, HD, HS.
    destruct (IH rp' st' Ht' HF HD) as [Hasc Hkey].
    split; [exact Hasc|].
    rewrite Hkey, !with_key_rev, HS, rev_app_distr, <- app_assoc.
    f_equal. unfold with_key. simpl.
    destruct (key x =? t); reflexivity.
Qed.

(** Sorted ascending key by key, and stable: elements of equal key keep
    their relative order. *)
Lemma SliceStable_keyed l st :
  Forall P l ->
  let r := fst (SliceStable less l st) in
  Permutation l r /\ ascending key r /\ forall t, with_key key t r = with_key key t l.
Proof.
  intros HP. split; [apply SliceStable_perm|].
  split.
  - apply (insertion_pass_keyed 0 l [] st HP); constructor.
  - intros t. apply (insertion_pass_keyed t l [] st HP); constructor.
Qed.
End SliceStable_keyed.

(** ** Ordering of the snapshots *)


Lemma resolve_stamped now now' e : stamped e -> resolve now e = resolve now' e.
Proof.
  unfold stamped, resolve.
  destruct (time.IsZero (EventTime e)), (time.IsZero (LastTimestamp e)),
    (time.IsZero (FirstTimestamp e)); simpl; intros H; congruence.
Qed.

(** The deployment handler's sort, on events that carry a timestamp:
    ascending by the resolved timestamp, events of equal timestamp in
    their order of arrival. *)
Lemma deployment_sort_stable clock (l : list Event) (k : nat) :
  Forall stamped l ->
  let r := fst (SliceStable (less_deployment clock) l k) in
  Permutation l r /\
  StronglySorted (fun a b => resolve 0 a <= resolve 0 b) r /\
  forall t, with_key (resolve 0) t r = with_key (resolve 0) t l.
Proof.
  intros Hl.
  apply (SliceStable_keyed (less_deployment clock) (resolve 0) stamped); [|exact Hl].
  intros x y st Hx Hy. rewrite less_deployment_resolve.
  rewrite (resolve_stamped _ 0 x Hx), (resolve_stamped _ 0 y Hy). reflexivity.
Qed.

(** The pod handler's sort: ascending by [LastTimestamp] alone. *)
Lemma pod_sort_stable (l : list Event) (k : nat) :
  let r := fst (SliceStable less_pod l k) in
  Permutation l r /\
  StronglySorted (fun a b => LastTimestamp a <= LastTimestamp b) r /\
  forall t, with_key LastTimestamp t r = with_key LastTimestamp t l.
Proof.
  apply (SliceStable_keyed less_pod LastTimestamp (fun _ => True)).
  - reflexivity.
  - apply Forall_forall. trivial.
Qed.

(** C2: in the single-resource handler the snapshot is sorted by the
    last-observed time only.  Two events that carry just an explicit
    event time (5 and 3) are pushed in their cache order, against their
    resolved timestamps; the deployment handler pushes them ascending. *)
Theorem pod_snapshot_ignores_resolved_time :
  let e1 := ev "e1" "m1" 5 0 0 in
  let e2 := ev "e2" "m2" 3 0 0 in
  pushes (fst (send_pod all_events (delivered [e1; e2]) initial)) = [[e1; e2]]
  /\ (forall now, resolve now e2 < resolve now e1)
  /\ (forall clock,
        pushes (fst (send_deployment clock all_events (delivered [e1; e2]) initial))
        = [[e2; e1]]).
Proof.
  split; [reflexivity|]. split; [intros now; reflexivity|].
  intros clock. reflexivity.
Qed.

(** ** What one call of [send] changes *)

Ltac unfold_send :=
  unfold send, send_pod, send_deployment, send_deferred, writeWsError,
    conn_WriteJSON, failed in *;
  cbn [emit set_closeCh set_nowCalls set_failedCount
       closeCh toClose connClosed failedCount seen nowCalls returned out
       fst snd] in *.

Ltac send_cases o s :=
  unfold_send;
  destruct (closeCh s) eqn:?; simpl;
  [|destruct (list_result o) as [?|?]; simpl;
    [|match goal with
      | |- context [SliceStable ?f ?l ?k] => destruct (SliceStable f l k) as [? ?]
      end; simpl;
      destruct (raced o); simpl;
      destruct (connClosed s) eqn:?; simpl;
      destruct (write_result o); simpl];
    destruct (report_result o); simpl].


(** [send] leaves the token, the connection, [seen] and the handler's
    [err] alone, never reopens [closeCh], and only adds to the trace. *)
Lemma send_frame v clock filter o s :
  let s' := fst (send v clock filter o s) in
  toClose s' = toClose s /\ connClosed s' = connClosed s /\
  seen s' = seen s /\ returned s' = returned s /\
  (closeCh s = true -> s' = s) /\
  exists more, out s' = (out s ++ more)%list.
Proof.
  destruct v; send_cases o s;
    repeat split; try congruence;
    try (exists []; symmetry; apply app_nil_r);
    rewrite <- ?app_assoc; eexists; reflexivity.
Qed.

(** The accounting of one call: a call that ends with an error adds one
    to the counter and then sleeps ten seconds, as its last act; a call
    that ends without one leaves the counter alone and does not sleep. *)
Lemma send_accounting v clock filter o s :
  let r := send v clock filter o s in
  match snd r with
  | Some _ =>
      failedCount (fst r) = wrap32 (failedCount s + 1) /\
      exists writes, out (fst r) = (out s ++ writes ++ [Sleep 10])%list
                     /\ Forall is_write writes
  | None =>
      failedCount (fst r) = failedCount s /\
      exists writes, out (fst r) = (out s ++ writes)%list /\ Forall is_write writes
  end.
Proof.
  destruct v; send_cases o s; (split; [reflexivity|]);
    rewrite <- ?app_assoc;
    first
      [ exists []; split; [symmetry; apply app_nil_r | constructor]
      | eexists [_]; split; [reflexivity | repeat constructor]
      | eexists [_; _]; split; [reflexivity | repeat constructor]
      | eexists []; split; [reflexivity | repeat constructor] ].
Qed.

(** ** The check before the write *)

(** The deployment handler's [send] looks at [closeCh] again before it
    writes: when the channel was closed at the start or got closed while
    the snapshot was built, no write is attempted and no failure is
    counted. *)
Lemma send_deployment_rechecks clock filter o s events :
  list_result o = inr events ->
  closeCh s || raced o = true ->
  let r := send_deployment clock filter o s in
  out (fst r) = out s /\ failedCount (fst r) = failedCount s /\ snd r = None.
Proof.
  intros Hl Hc. unfold_send. rewrite Hl.
  destruct (closeCh s) eqn:Hs; simpl in *; [repeat split|].
  rewrite Hc.
  destruct (SliceStable _ _ _) as [? ?]; simpl.
  repeat split.
Qed.

(** C4: the single-resource handler's [send] checks [closeCh] at its
    start only.  With the channel open at the start and closed while the
    snapshot is built, it still writes the envelope; the deployment
    handler's [send] writes nothing on the same run. *)
Theorem pod_send_writes_after_close :
  let e := ev "e" "m" 0 7 0 in
  let o := {| list_result := inr [e]; raced := true;
              write_result := None; report_result := None |} in
  let s' := fst (send_pod all_events o initial) in
  closeCh s' = true
  /\ out s' = [WriteJSON (success [e]) None]
  /\ (forall clock, out (fst (send_deployment clock all_events o initial)) = []).
Proof.
  split; [reflexivity|]. split; [reflexivity|]. intros clock. reflexivity.
Qed.

(** ** The seen set *)

Lemma step_seen v clock filter s st : seen (step v clock filter s st) = seen s.
Proof.
  destruct st as [o|[event|] o|w| | |]; simpl; try reflexivity.
  - apply send_frame.
  - destruct (filter event); [apply send_frame | reflexivity].
  - destruct (returned s); [reflexivity|].
    destruct (watchdog s); [|reflexivity].
    unfold handler_exit, writeWsError. destruct o; reflexivity.
  - unfold ctx_done. destruct (closeCh s); reflexivity.
  - unfold forward. destruct (closeCh s), (toClose s); reflexivity.
Qed.

(** Nothing is ever put into [seen]. *)
Lemma run_seen v clock filter steps s : seen (run v clock filter steps s) = seen s.
Proof.
  unfold run. revert s.
  induction steps as [|st steps IH]; intros s; simpl; [reflexivity|].
  rewrite IH. apply step_seen.
Qed.

Lemma seen_stays_empty v clock filter steps :
  seen (run v clock filter steps initial) = ∅.
Proof. apply run_seen. Qed.

(** An event whose message is in [seen] is dropped from the snapshot. *)
Lemma send_deployment_drops_seen clock filter o s events e :
  closeCh s = false -> connClosed s = false -> raced o = false ->
  list_result o = inr events -> write_result o = None ->
  Message e ∈ seen s ->
  forall p, In p (omap pushed (skipn (length (out s))
                      (out (fst (send_deployment clock filter o s))))) ->
  ~ In e p.
Proof.
  intros Hc Hn Hr Hl Hw Hseen p Hp.
  unfold_send. rewrite Hc, Hl, Hr in Hp. simpl in Hp.
  match type of Hp with
  | context [SliceStable ?f ?l ?k] =>
      pose proof (SliceStable_perm f l k) as Hperm;
      destruct (SliceStable f l k) as [sorted k']
  end.
  simpl in Hp. rewrite ?Hc, ?Hn, ?Hw in Hp. simpl in Hp.
  rewrite skipn_app, skipn_all, Nat.sub_diag in Hp. simpl in Hp.
  destruct Hp as [<-|[]]. simpl in Hperm.
  intros Hin. apply (Permutation_in _ (Permutation_sym Hperm)) in Hin.
  apply List.filter_In in Hin. destruct Hin as [_ Hin].
  apply andb_true_iff in Hin. destruct Hin as [_ Hin].
  unfold has_key in Hin.
  apply negb_true_iff, bool_decide_eq_false in Hin. contradiction.
Qed.

(** C1: nothing is ever added to [seen], so [send] never finds a
    message there.  With one event in the cache, the eager [send] and
    the [send] of a later notification both deliver that event: it is in
    two snapshots of the session. *)
Theorem deployment_event_delivered_twice :
  let e := ev "e" "Scaled up replica set" 0 7 0 in
  forall clock,
    pushes (run DeploymentScoped clock all_events
              [Trigger (delivered [e]); Notify (Some e) (delivered [e])] initial)
    = [[e]; [e]]
    /\ seen (run DeploymentScoped clock all_events
               [Trigger (delivered [e]); Notify (Some e) (delivered [e])] initial) = ∅.
Proof.
  intros e clock. split; [reflexivity | apply seen_stays_empty].
Qed.

(** ** The filters *)

Lemma pushes_emit e s :
  pushes (emit e s) = (pushes s ++ match pushed e with Some p => [p] | None => [] end)%list.
Proof.
  unfold pushes, emit. simpl. rewrite omap_app. simpl.
  destruct (pushed e); reflexivity.
Qed.

(** C9: without a [pod_name] the single-resource handler keeps the
    filter that accepts every event; every notification then calls
    [send], and a snapshot that goes out holds all the events that the
    lister returned. *)
Theorem pod_without_selector_streams_all (KindPod : string) (req : PodRequest) :
  p_pod_name req = "" ->
  GetPodKubeEvents_filter KindPod req = inr all_events
  /\ (forall event, all_events event = true)
  /\ (forall clock event o s,
        step PodScoped clock all_events s (Notify (Some event) o)
        = fst (send_pod all_events o s))
  /\ (forall o s events,
        closeCh s = false -> connClosed s = false ->
        list_result o = inr events -> write_result o = None ->
        exists snapshot,
          Permutation events snapshot
          /\ pushes (fst (send_pod all_events o s)) = (pushes s ++ [snapshot])%list).
Proof.
  intros Hname. unfold GetPodKubeEvents_filter. rewrite Hname. simpl.
  split; [reflexivity|]. split; [reflexivity|]. split; [reflexivity|].
  intros o s events Hc Hn Hl Hw.
  unfold send_pod. rewrite Hc, Hl.
  assert (Hall : List.filter all_events events = events).
  { clear. induction events as [|e l IH]; simpl; [reflexivity | now rewrite IH]. }
  rewrite Hall.
  pose proof (SliceStable_perm less_pod events (nowCalls s)) as Hperm.
  destruct (SliceStable less_pod events (nowCalls s)) as [sorted k]. simpl in Hperm.
  exists sorted. split; [exact Hperm|].
  unfold conn_WriteJSON. simpl. rewrite Hn, Hw. simpl.
  rewrite pushes_emit. reflexivity.
Qed.


Lemma pod_without_selector_streams_all_witness :
  GetPodKubeEvents_filter "Pod" req_all_events = inr all_events.
Proof.
  apply (pod_without_selector_streams_all "Pod" req_all_events). reflexivity.
Defined.

(** With a [pod_name] the filter matches on kind and UID. *)
Lemma pod_with_selector KindPod req pod :
  p_pod_name req <> "" -> p_GetKubeCliSet req = None -> p_podsGet req = inr pod ->
  GetPodKubeEvents_filter KindPod req = inr (pod_filter KindPod pod).
Proof.
  intros Hname Hcli Hpod. unfold GetPodKubeEvents_filter.
  destruct (String.eqb_spec (p_pod_name req) ""); [contradiction|].
  rewrite Hcli, Hpod. reflexivity.
Qed.

(** C10: with a [pod_name], the deployment handler compares the pod's
    deployment label with the deployment's name before anything is
    streamed.  When they differ the handler returns the error
    "pod ... not in this deployment", with no filter installed, no
    snapshot sent, and neither the informer callbacks nor the watchdog
    started; when they agree the pod filter replaces the group filter. *)
Theorem deployment_pod_membership (KindPod LabelKey : string)
  (req : DeploymentRequest) (deployment : Deployment) (pod : Pod)
  (groupFilter : Event -> bool) :
  d_Upgrade req = None -> d_GetDeployment req = inr deployment ->
  d_canView req = None -> d_GetCluster req = None ->
  d_MakeDeploymentKubeEventFilter req = inr groupFilter ->
  d_pod_name req <> "" -> d_GetKubeCliSet req = None -> d_podsGet req = inr pod ->
  (label pod LabelKey <> DeploymentName deployment ->
     GetDeploymentKubeEvents_filter KindPod LabelKey req deployment
     = inl (not_in_this_deployment (d_pod_name req))
     /\ forall clock o0 steps,
          let r := GetDeploymentKubeEvents KindPod LabelKey clock req o0 steps in
          fst r = [CloseForwarder; ReadMonitor]
          /\ returned (snd r) = Some (Some (not_in_this_deployment (d_pod_name req)))
          /\ pushes (snd r) = [])
  /\ (label pod LabelKey = DeploymentName deployment ->
        GetDeploymentKubeEvents_filter KindPod LabelKey req deployment
        = inr (pod_filter KindPod pod)).
Proof.
  intros Hup Hdep Hview Hcl Hmk Hname Hcli Hpod.
  assert (Hf : GetDeploymentKubeEvents_filter KindPod LabelKey req deployment
               = if negb (String.eqb (label pod LabelKey) (DeploymentName deployment))
                 then inl (not_in_this_deployment (d_pod_name req))
                 else inr (pod_filter KindPod pod)).
  { unfold GetDeploymentKubeEvents_filter. rewrite Hmk.
    destruct (String.eqb_spec (d_pod_name req) ""); [contradiction|].
    rewrite Hcli, Hpod. reflexivity. }
  split.
  - intros Hne.
    destruct (String.eqb_spec (label pod LabelKey) (DeploymentName deployment));
      [contradiction|]. simpl in Hf.
    split; [exact Hf|]. intros clock o0 steps.
    unfold GetDeploymentKubeEvents. rewrite Hup, Hdep, Hview, Hcl, Hf. simpl.
    unfold pushes. simpl. destruct (d_report req); repeat split.
  - intros Heq. rewrite Hf.
    destruct (String.eqb_spec (label pod LabelKey) (DeploymentName deployment));
      [reflexivity | contradiction].
Qed.


Lemma deployment_pod_membership_witness :
  GetDeploymentKubeEvents_filter "Pod" "yatai.ai/deployment" req_foreign_pod
    {| DeploymentName := "iris"; KubeNamespace := "yatai" |}
  = inl "pod fraud-7c9d not in this deployment".
Proof.
  refine (proj1 (proj1 (deployment_pod_membership "Pod" "yatai.ai/deployment"
            req_foreign_pod {| DeploymentName := "iris"; KubeNamespace := "yatai" |}
            {| PodUID := "uid-1"; Labels := {[ "yatai.ai/deployment" := "fraud" ]} |}
            all_events _ _ _ _ _ _ _ _) _));
    try reflexivity; vm_compute; discriminate.
Defined.

(** ** Setup failures *)



(** C7, as stated, fails: when the cluster lookup of the deployment
    handler fails, the handler aborts, but the closing goroutine and the
    read monitor have been started before. *)
Lemma setup_failure_after_read_monitor :
  let r := GetDeploymentKubeEvents "Pod" "yatai.ai/deployment" (fun _ => 0)
             req_no_cluster (delivered []) [] in
  d_fails_late "Pod" "yatai.ai/deployment" req_no_cluster = true
  /\ aborted r
  /\ fst r = [CloseForwarder; ReadMonitor]
  /\ ~ (fst r = []).
Proof.
  split; [reflexivity|]. split; [split; [eexists|]; reflexivity|].
  split; [reflexivity | discriminate].
Qed.

Lemma exit_aborted tasks w e :
  aborted (tasks, handler_exit w (Some e) initial)
  /\ aborted (tasks, early_exit w (Some e) initial).
Proof.
  unfold aborted, handler_exit, early_exit, pushes. simpl.
  destruct w; repeat split; eauto.
Qed.

(** C7, amended: a failure of the upgrade, of the first lookup or of the
    authorization check aborts the handler with no task started; a
    failure of a later setup step aborts it with the closing goroutine
    and the read monitor started and the close requested, but before the
    eager [send], the informer callbacks and the watchdog; without a
    failure all four tasks run. *)
Theorem setup_failure_tasks (KindPod LabelKey : string) (clock : Clock)
  (o0 : SendObs) (steps : list Step) :
  (forall req : PodRequest,
     let r := GetPodKubeEvents KindPod clock req o0 steps in
     if p_fails_early req then aborted r /\ fst r = []
     else if p_fails_late KindPod req
          then aborted r /\ fst r = [CloseForwarder; ReadMonitor]
               /\ toClose (snd r) = true /\ connClosed (snd r) = true
          else fst r = [CloseForwarder; ReadMonitor; CacheListener; Watchdog])
  /\ (forall req : DeploymentRequest,
        let r := GetDeploymentKubeEvents KindPod LabelKey clock req o0 steps in
        if d_fails_early req then aborted r /\ fst r = []
        else if d_fails_late KindPod LabelKey req
             then aborted r /\ fst r = [CloseForwarder; ReadMonitor]
                  /\ toClose (snd r) = true /\ connClosed (snd r) = true
             else fst r = [CloseForwarder; ReadMonitor; CacheListener; Watchdog]).
Proof.
  split; intros req.
  - unfold GetPodKubeEvents, p_fails_early, p_fails_late.
    destruct (p_Upgrade req) as [e|]; simpl.
    { split; [split; [eexists|]; reflexivity | reflexivity]. }
    destruct (p_GetCluster req) as [e|]; simpl.
    { split; [apply exit_aborted | reflexivity]. }
    destruct (p_canView req) as [e|]; simpl.
    { split; [apply exit_aborted | reflexivity]. }
    destruct (GetPodKubeEvents_filter KindPod req) as [e|filter]; simpl.
    { split; [apply exit_aborted|].
      unfold handler_exit, writeWsError. destruct (p_report req); repeat split. }
    destruct (p_GetEventInformer req) as [e|]; simpl; [|reflexivity].
    split; [apply exit_aborted|].
    unfold handler_exit, writeWsError. destruct (p_report req); repeat split.
  - unfold GetDeploymentKubeEvents, d_fails_early, d_fails_late.
    destruct (d_Upgrade req) as [e|]; simpl.
    { split; [split; [eexists|]; reflexivity | reflexivity]. }
    destruct (d_GetDeployment req) as [e|deployment]; simpl.
    { split; [apply exit_aborted | reflexivity]. }
    destruct (d_canView req) as [e|]; simpl.
    { split; [apply exit_aborted | reflexivity]. }
    destruct (d_GetCluster req) as [e|]; simpl.
    { split; [apply exit_aborted|].
      unfold handler_exit, writeWsError. destruct (d_report req); repeat split. }
    destruct (GetDeploymentKubeEvents_filter KindPod LabelKey req deployment)
      as [e|filter]; simpl.
    { split; [apply exit_aborted|].
      unfold handler_exit, writeWsError. destruct (d_report req); repeat split. }
    destruct (d_GetEventInformer req) as [e|]; simpl; [|reflexivity].
    split; [apply exit_aborted|].
    unfold handler_exit, writeWsError. destruct (d_report req); repeat split.
Qed.

(** ** The failure counter *)

Lemma wrap32_id z : - 2 ^ 31 <= z < 2 ^ 31 -> wrap32 z = z.
Proof. intros H. unfold wrap32. rewrite Z.mod_small; lia. Qed.

Lemma wrap32_succ z : wrap32 (wrap32 z + 1) = wrap32 (z + 1).
Proof.
  unfold wrap32.
  replace ((z + 2 ^ 31) mod 2 ^ 32 - 2 ^ 31 + 1 + 2 ^ 31)
    with ((z + 2 ^ 31) mod 2 ^ 32 + 1) by lia.
  rewrite Zplus_mod_idemp_l. f_equal. f_equal. lia.
Qed.

Lemma failures_app s writes tail :
  Forall is_write writes ->
  Z.of_nat (length (List.filter is_cooldown (out s ++ writes ++ tail)))
  = failures s + Z.of_nat (length (List.filter is_cooldown tail)).
Proof.
  intros Hw. unfold failures. rewrite !List.filter_app, !length_app.
  assert (Hnil : List.filter is_cooldown writes = []).
  { induction Hw as [|e l He _ IH]; simpl; [reflexivity|].
    destruct e; [exact IH | destruct He]. }
  rewrite Hnil. simpl. lia.
Qed.

(** A step either leaves the counter and the number of cooldowns alone
    or adds one to both; it only adds to the trace. *)
Lemma step_accounting v clock filter s st :
  let s' := step v clock filter s st in
  ((failedCount s' = failedCount s /\ failures s' = failures s)
   \/ (failedCount s' = wrap32 (failedCount s + 1) /\ failures s' = failures s + 1))
  /\ exists more, out s' = (out s ++ more)%list.
Proof.
  assert (Hsend : forall o,
    let s' := fst (send v clock filter o s) in
    ((failedCount s' = failedCount s /\ failures s' = failures s)
     \/ (failedCount s' = wrap32 (failedCount s + 1) /\ failures s' = failures s + 1))
    /\ exists more, out s' = (out s ++ more)%list).
  { intros o. split; [|apply send_frame].
    pose proof (send_accounting v clock filter o s) as Ha. simpl in Ha.
    destruct (send v clock filter o s) as [s1 [e|]]; simpl in *.
    - right. destruct Ha as [Hc [writes [Ho Hw]]]. split; [exact Hc|].
      unfold failures at 1. rewrite Ho, (failures_app s writes [Sleep 10] Hw).
      reflexivity.
    - left. destruct Ha as [Hc [writes [Ho Hw]]]. split; [exact Hc|].
      unfold failures at 1.
      rewrite Ho, <- (app_nil_r writes), (failures_app s writes [] Hw). simpl. lia. }
  assert (Hsame : forall s', failedCount s' = failedCount s -> out s' = out s ->
    ((failedCount s' = failedCount s /\ failures s' = failures s)
     \/ (failedCount s' = wrap32 (failedCount s + 1) /\ failures s' = failures s + 1))
    /\ exists more, out s' = (out s ++ more)%list).
  { intros s' Hc Ho. split; [left; split; [exact Hc | unfold failures; now rewrite Ho]|].
    exists []. rewrite Ho. symmetry. apply app_nil_r. }
  destruct st as [o|[event|] o|w| | |]; cbn [step]; cbv zeta.
  - apply Hsend.
  - destruct (filter event); [apply Hsend | now apply Hsame].
  - now apply Hsame.
  - destruct (returned s); [now apply Hsame|].
    destruct (watchdog s) as [[e|]|]; try (now apply Hsame).
    split.
    + left. split; [reflexivity|]. unfold failures, handler_exit. simpl.
      rewrite List.filter_app, length_app. simpl. lia.
    + eexists. reflexivity.
  - now apply (Hsame (doClose s)).
  - unfold ctx_done. destruct (closeCh s); now apply Hsame.
  - unfold forward. destruct (closeCh s), (toClose s); now apply Hsame.
Qed.

Lemma run_app v clock filter steps more s :
  run v clock filter (steps ++ more) s
  = run v clock filter more (run v clock filter steps s).
Proof. unfold run. apply fold_left_app. Qed.

Lemma run_count_bounds v clock filter steps s :
  - 2 ^ 31 <= failedCount s ->
  failedCount s + Z.of_nat (length steps) < 2 ^ 31 ->
  failedCount s <= failedCount (run v clock filter steps s)
                <= failedCount s + Z.of_nat (length steps).
Proof.
  unfold run. revert s.
  induction steps as [|st steps IH]; intros s Hlo Hhi; simpl in *; [lia|].
  destruct (step_accounting v clock filter s st) as [[[Hc _]|[Hc _]] _].
  - specialize (IH (step v clock filter s st)). rewrite Hc in IH. lia.
  - rewrite wrap32_id in Hc by lia.
    specialize (IH (step v clock filter s st)). rewrite Hc in IH. lia.
Qed.

Lemma run_out v clock filter steps s :
  exists more, out (run v clock filter steps s) = (out s ++ more)%list.
Proof.
  unfold run. revert s.
  induction steps as [|st steps IH]; intros s; simpl.
  - exists []. symmetry. apply app_nil_r.
  - destruct (IH (step v clock filter s st)) as [more Hm].
    destruct (step_accounting v clock filter s st) as [_ [more0 Hs]].
    exists (more0 ++ more)%list. rewrite Hm, Hs. symmetry. apply app_assoc.
Qed.

(** C6: the counter never goes down and is never reset: along a run it
    only grows.  A [send] that ends with an error adds exactly one to it
    and then sleeps ten seconds as its last act, so that whatever the
    session does later comes after the cooldown; a [send] that ends
    without an error leaves the counter alone.  (The counter is an
    [int32]; the statement is for runs that stay below its maximum.) *)
Theorem failed_count_cumulative v clock filter (s : Session) (steps : list Step)
  (o : SendObs) :
  - 2 ^ 31 <= failedCount s ->
  failedCount s + Z.of_nat (length steps) + 1 < 2 ^ 31 ->
  let s1 := run v clock filter steps s in
  let r := send v clock filter o s1 in
  failedCount s <= failedCount s1
  /\ match snd r with
     | Some _ =>
         failedCount (fst r) = failedCount s1 + 1
         /\ exists writes,
              Forall is_write writes
              /\ out (fst r) = (out s1 ++ writes ++ [Sleep 10])%list
              /\ forall later, exists more,
                   out (run v clock filter later (fst r))
                   = (out s1 ++ writes ++ [Sleep 10] ++ more)%list
     | None =>
         failedCount (fst r) = failedCount s1
         /\ exists writes, Forall is_write writes /\ out (fst r) = (out s1 ++ writes)%list
     end.
Proof.
  intros Hlo Hhi s1 r.
  pose proof (run_count_bounds v clock filter steps s Hlo ltac:(lia)) as Hb.
  fold s1 in Hb. split; [lia|].
  pose proof (send_accounting v clock filter o s1) as Ha. fold r in Ha. cbv zeta in Ha.
  destruct (snd r) as [e|].
  - destruct Ha as [Hc [writes [Ho Hw]]].
    split; [rewrite Hc; apply wrap32_id; lia|].
    exists writes. split; [exact Hw|]. split; [exact Ho|].
    intros later. destruct (run_out v clock filter later (fst r)) as [more Hm].
    exists more. rewrite Hm, Ho, <- !app_assoc. reflexivity.
  - destruct Ha as [Hc [writes [Ho Hw]]].
    split; [exact Hc|]. exists writes. split; assumption.
Qed.


Lemma failed_count_cumulative_witness :
  failedCount initial
  <= failedCount (run PodScoped (fun _ => 0) all_events
                    [Trigger list_fails; Trigger (delivered [])] initial).
Proof.
  apply (failed_count_cumulative PodScoped (fun _ => 0) all_events
           initial [Trigger list_fails; Trigger (delivered [])] (write_fails []));
    vm_compute; [discriminate | reflexivity].
Defined.

(** ** The watchdog *)

(** On a session started by a handler the counter is the number of send
    failures (as an [int32]), and the connection is open for as long as
    the handler has not returned. *)
Lemma run_invariant v clock filter steps :
  let s := run v clock filter steps initial in
  failedCount s = wrap32 (failures s)
  /\ (returned s = None -> connClosed s = false).
Proof.
  induction steps as [|st steps IH] using rev_ind.
  - split; reflexivity.
  - rewrite run_app. simpl. destruct IH as [IHc IHr].
    set (s := run v clock filter steps initial) in *.
    split.
    + destruct (step_accounting v clock filter s st) as [[[Hc Hf]|[Hc Hf]] _];
        rewrite Hc, Hf, IHc; [reflexivity | apply wrap32_succ].
    + destruct st as [o|[event|] o|w| | |]; cbn [step].
      * destruct (send_frame v clock filter o s) as (_ & Hn & _ & Hr & _).
        rewrite Hn, Hr. exact IHr.
      * destruct (filter event); [|exact IHr].
        destruct (send_frame v clock filter o s) as (_ & Hn & _ & Hr & _).
        rewrite Hn, Hr. exact IHr.
      * exact IHr.
      * destruct (returned s) eqn:Hret; [congruence|].
        destruct (watchdog s); [discriminate | rewrite Hret; exact IHr].
      * exact IHr.
      * unfold ctx_done. destruct (closeCh s); exact IHr.
      * unfold forward. destruct (closeCh s), (toClose s); exact IHr.
Qed.

(** Once the connection is closed it stays closed, and no snapshot is
    delivered any more. *)
Lemma step_after_close v clock filter s st :
  connClosed s = true ->
  connClosed (step v clock filter s st) = true
  /\ pushes (step v clock filter s st) = pushes s.
Proof.
  intros Hn.
  assert (Hsend : forall o,
    connClosed (fst (send v clock filter o s)) = true
    /\ pushes (fst (send v clock filter o s)) = pushes s).
  { intros o. split; [destruct (send_frame v clock filter o s) as (_ & -> & _); exact Hn|].
    unfold pushes. destruct v; send_cases o s; rewrite ?Hn; try congruence;
      rewrite ?omap_app; simpl; rewrite ?app_nil_r; reflexivity. }
  destruct st as [o|[event|] o|w| | |]; cbn [step].
  - apply Hsend.
  - destruct (filter event); [apply Hsend | split; [exact Hn | reflexivity]].
  - split; [exact Hn | reflexivity].
  - destruct (returned s); [split; [exact Hn | reflexivity]|].
    destruct (watchdog s) as [[e|]|]; (split; [try exact Hn; reflexivity|]);
      try reflexivity.
    unfold pushes, handler_exit. simpl. rewrite Hn. simpl.
    rewrite omap_app. simpl. apply app_nil_r.
  - split; [exact Hn | reflexivity].
  - unfold ctx_done. destruct (closeCh s); split; try exact Hn; reflexivity.
  - unfold forward. destruct (closeCh s), (toClose s); split; try exact Hn; reflexivity.
Qed.

Lemma run_after_close v clock filter steps s :
  connClosed s = true -> pushes (run v clock filter steps s) = pushes s.
Proof.
  unfold run. revert s.
  induction steps as [|st steps IH]; intros s Hn; simpl; [reflexivity|].
  destruct (step_after_close v clock filter s st Hn) as [Hn' Hp].
  rewrite (IH _ Hn'). exact Hp.
Qed.

(** C5: on an open session whose handler is in its watchdog loop, an
    iteration of the loop leaves the session alone while at most
    [maxFailed] = 10 sends have failed; from the eleventh failure on it
    ends the loop with the error "ws events failed too frequently!":
    the handler requests the close, writes that error to the
    connection, closes the connection and returns, and whatever happens
    later, no further snapshot is delivered. *)
Theorem watchdog_threshold v clock filter (steps : list Step) (w : option error) :
  let s := run v clock filter steps initial in
  returned s = None -> closeCh s = false ->
  (failures s <= maxFailed -> step v clock filter s (Poll w) = s)
  /\ (maxFailed + 1 <= failures s < 2 ^ 31 ->
      let s' := step v clock filter s (Poll w) in
      returned s' = Some (Some too_frequently)
      /\ out s' = (out s ++ [WriteJSON {| Type_ := WsRespTypeError;
                                          Message_ := too_frequently;
                                          Payload := [] |} w])%list
      /\ toClose s' = true /\ connClosed s' = true
      /\ closeCh (step v clock filter s' Forward) = true
      /\ forall later, pushes (run v clock filter later s') = pushes s).
Proof.
  intros s Hret Hopen.
  destruct (run_invariant v clock filter steps) as [Hcount Hconn].
  fold s in Hcount, Hconn. specialize (Hconn Hret).
  unfold maxFailed. split.
  - intros Hle. cbn [step]. rewrite Hret. unfold watchdog. rewrite Hopen.
    rewrite Hcount, wrap32_id by (unfold failures in *; lia).
    destruct (Z.gtb_spec (failures s) maxFailed) as [Hgt|_]; [unfold maxFailed in Hgt; lia|].
    reflexivity.
  - intros Hgt. cbn [step]. rewrite Hret. unfold watchdog. rewrite Hopen.
    rewrite Hcount, wrap32_id by lia.
    destruct (Z.gtb_spec (failures s) maxFailed) as [_|Hle]; [|unfold maxFailed in Hle; lia].
    unfold handler_exit, writeWsError, conn_WriteJSON, doClose. simpl. rewrite Hconn.
    repeat split.
    + unfold forward. simpl. rewrite Hopen. reflexivity.
    + intros later. rewrite run_after_close by reflexivity.
      unfold pushes. simpl. rewrite omap_app. simpl.
      destruct w; apply app_nil_r.
Qed.


Lemma watchdog_threshold_witness :
  returned (step DeploymentScoped (fun _ => 0) all_events
              (run DeploymentScoped (fun _ => 0) all_events eleven_failures initial)
              (Poll None))
  = Some (Some too_frequently).
Proof.
  refine (proj1 (proj2 (watchdog_threshold DeploymentScoped (fun _ => 0) all_events
                          eleven_failures None _ _) _));
    vm_compute; first [reflexivity | split; [discriminate | reflexivity]].
Defined.

Example ten_failures_tolerated :
  let s := run PodScoped (fun _ => 0) all_events (repeat (Trigger list_fails) 10) initial in
  failedCount s = 10 /\ step PodScoped (fun _ => 0) all_events s (Poll None) = s.
Proof. split; vm_compute; reflexivity. Qed.

(** * Further properties of the handlers *)

(** ** The snapshots *)

Lemma has_key_empty key : has_key ∅ key = false.
Proof. unfold has_key. apply bool_decide_eq_false. apply not_elem_of_empty. Qed.

Lemma Permutation_filter_In (filter : Event -> bool) events snapshot :
  Permutation (List.filter filter events) snapshot ->
  forall e, In e snapshot <-> In e events /\ filter e = true.
Proof.
  intros Hp e. rewrite <- List.filter_In. split; apply Permutation_in.
  - apply Permutation_sym, Hp.
  - exact Hp.
Qed.

(** X1: a [send] of the pod handler that goes through delivers exactly
    the events of the lister that pass the filter, ascending by
    [LastTimestamp], events of equal [LastTimestamp] in the lister's
    order. *)
Theorem pod_snapshot_sorted (filter : Event -> bool) (o : SendObs) (s : Session)
  (events : list Event) :
  closeCh s = false -> connClosed s = false ->
  list_result o = inr events -> write_result o = None ->
  exists snapshot,
    pushes (fst (send_pod filter o s)) = (pushes s ++ [snapshot])%list
    /\ (forall e, In e snapshot <-> In e events /\ filter e = true)
    /\ Permutation (List.filter filter events) snapshot
    /\ ascending LastTimestamp snapshot
    /\ forall t, with_key LastTimestamp t snapshot
                 = with_key LastTimestamp t (List.filter filter events).
Proof.
  intros Hc Hn Hl Hw. unfold send_pod. rewrite Hc, Hl.
  destruct (pod_sort_stable (List.filter filter events) (nowCalls s))
    as (Hperm & Hasc & Hst).
  destruct (SliceStable less_pod (List.filter filter events) (nowCalls s))
    as [sorted k]. simpl in Hperm, Hasc, Hst.
  exists sorted. split.
  - unfold conn_WriteJSON. simpl. rewrite Hn, Hw. simpl.
    rewrite pushes_emit. reflexivity.
  - split; [apply Permutation_filter_In, Hperm|].
    split; [exact Hperm|]. split; [exact Hasc | exact Hst].
Qed.

Lemma pod_snapshot_sorted_witness :
  exists snapshot,
    pushes (fst (send_pod only_a (delivered three_events) initial))
    = ([] ++ [snapshot])%list
    /\ (forall e, In e snapshot <-> In e three_events /\ only_a e = true).
Proof.
  destruct (pod_snapshot_sorted only_a (delivered three_events) initial three_events)
    as (snapshot & Hp & Hin & _); try reflexivity.
  exists snapshot. split; [exact Hp | exact Hin].
Defined.

(** X2: on a session started by the deployment handler nothing is in
    [seen], and a [send] that goes through delivers exactly the events
    of the lister that pass the filter; when these carry a timestamp
    they come ascending by the resolved timestamp, events of equal
    timestamp in the lister's order. *)
Theorem deployment_snapshot_sorted (clock : Clock) (filter : Event -> bool)
  (steps : list Step) (o : SendObs) (events : list Event) :
  let s := run DeploymentScoped clock filter steps initial in
  closeCh s = false -> connClosed s = false -> raced o = false ->
  list_result o = inr events -> write_result o = None ->
  exists snapshot,
    pushes (fst (send_deployment clock filter o s)) = (pushes s ++ [snapshot])%list
    /\ (forall e, In e snapshot <-> In e events /\ filter e = true)
    /\ (Forall stamped (List.filter filter events) ->
        ascending (resolve 0) snapshot
        /\ forall t, with_key (resolve 0) t snapshot
                     = with_key (resolve 0) t (List.filter filter events)).
Proof.
  intros s Hc Hn Hr Hl Hw.
  assert (Hseen : seen s = ∅) by apply seen_stays_empty.
  unfold send_deployment. rewrite Hc, Hl, Hseen.
  rewrite (List.filter_ext _ filter)
    by (intros a; rewrite has_key_empty; apply andb_true_r).
  pose proof (SliceStable_perm (less_deployment clock)
                (List.filter filter events) (nowCalls s)) as Hperm.
  pose proof (deployment_sort_stable clock (List.filter filter events) (nowCalls s))
    as Hsort.
  destruct (SliceStable (less_deployment clock) (List.filter filter events) (nowCalls s))
    as [sorted k]. simpl in Hperm, Hsort.
  exists sorted. split.
  - simpl. rewrite ?Hc, ?Hr. simpl. unfold conn_WriteJSON. simpl. rewrite Hn, Hw. simpl.
    rewrite pushes_emit. reflexivity.
  - split; [apply Permutation_filter_In, Hperm|].
    intros Hst. destruct (Hsort Hst) as (_ & Hasc & Hkey). split; assumption.
Qed.

Lemma deployment_snapshot_sorted_witness :
  exists snapshot,
    pushes (fst (send_deployment (fun _ => 0) all_events (delivered stamped_events)
                   (run DeploymentScoped (fun _ => 0) all_events [] initial)))
    = ([] ++ [snapshot])%list
    /\ ascending (resolve 0) snapshot.
Proof.
  destruct (deployment_snapshot_sorted (fun _ => 0) all_events []
              (delivered stamped_events) stamped_events)
    as (snapshot & Hp & _ & Hs); try reflexivity.
  exists snapshot. split; [exact Hp|].
  apply Hs. repeat constructor.
Defined.

(** X3: when no event of the lister passes the filter, a [send] that
    goes through still writes an envelope: the snapshot is empty. *)
Theorem empty_snapshot_still_pushed (v : Variant) (clock : Clock)
  (filter : Event -> bool) (o : SendObs) (s : Session) (events : list Event) :
  closeCh s = false -> connClosed s = false -> raced o = false ->
  list_result o = inr events -> write_result o = None ->
  (forall e, In e events -> filter e = false) ->
  out (fst (send v clock filter o s)) = (out s ++ [WriteJSON (success []) None])%list
  /\ snd (send v clock filter o s) = None.
Proof.
  intros Hc Hn Hr Hl Hw Hnone.
  assert (Hf : forall g, List.filter (fun e => filter e && g e) events = []).
  { intros g. clear -Hnone. induction events as [|a l IH]; simpl; [reflexivity|].
    rewrite (Hnone a) by (left; reflexivity). simpl.
    apply IH. intros e He. apply Hnone. right. exact He. }
  destruct v; unfold send, send_pod, send_deployment; rewrite Hc, Hl.
  - rewrite (List.filter_ext filter (fun e => filter e && true))
      by (intros a; symmetry; apply andb_true_r).
    rewrite Hf. simpl. unfold conn_WriteJSON. simpl. rewrite Hn, Hw. simpl.
    split; reflexivity.
  - rewrite Hf. simpl. rewrite ?Hc, ?Hr. simpl. unfold conn_WriteJSON. simpl.
    rewrite Hn, Hw. simpl. split; reflexivity.
Qed.

Lemma empty_snapshot_still_pushed_witness :
  out (fst (send PodScoped (fun _ => 0) (fun _ => false) (delivered three_events) initial))
  = ([] ++ [WriteJSON (success []) None])%list.
Proof.
  apply (empty_snapshot_still_pushed PodScoped (fun _ => 0) (fun _ => false)
           (delivered three_events) initial three_events); reflexivity.
Defined.

(** ** Failing sends *)

(** X4: when [eventLister.List] fails, [send] of either handler reports
    "list events: ..." in one error envelope, delivers no snapshot,
    counts one failure and sleeps ten seconds. *)
Theorem send_list_failure (v : Variant) (clock : Clock) (filter : Event -> bool)
  (o : SendObs) (s : Session) (e : error) :
  closeCh s = false -> list_result o = inl e ->
  let r := send v clock filter o s in
  snd r = Some ("list events: " +:+ e)
  /\ out (fst r)
     = (out s ++ [WriteJSON (error_envelope ("list events: " +:+ e))
                    (if connClosed s then Some ErrClosed else report_result o);
                  Sleep 10])%list
  /\ pushes (fst r) = pushes s
  /\ failedCount (fst r) = wrap32 (failedCount s + 1).
Proof.
  intros Hc Hl.
  assert (Hp : forall w, omap pushed
                 (out s ++ [WriteJSON (error_envelope ("list events: " +:+ e)) w;
                            Sleep 10])%list = omap pushed (out s)).
  { intros w. rewrite omap_app. simpl. destruct w; apply app_nil_r. }
  destruct v; unfold send, send_pod, send_deployment; rewrite Hc, Hl;
    unfold send_deferred, writeWsError, conn_WriteJSON, failed, pushes; simpl;
    rewrite <- app_assoc; simpl; repeat split; apply Hp.
Qed.

Lemma send_list_failure_witness :
  snd (send DeploymentScoped (fun _ => 0) all_events list_fails initial)
  = Some "list events: cache not synced".
Proof.
  apply (send_list_failure DeploymentScoped (fun _ => 0) all_events list_fails
           initial "cache not synced"); reflexivity.
Defined.

(** X5: when the write of the snapshot fails, the pod handler's [send]
    reports the error as "ws write json: ...", the deployment handler's
    [send] reports it as it is; both deliver nothing and count one
    failure. *)
Theorem send_write_failure (clock : Clock) (filter : Event -> bool)
  (o : SendObs) (s : Session) (events : list Event) (e : error) :
  closeCh s = false -> connClosed s = false -> raced o = false ->
  list_result o = inr events -> write_result o = Some e ->
  let p := send_pod filter o s in
  let d := send_deployment clock filter o s in
  snd p = Some ("ws write json: " +:+ e) /\ snd d = Some e
  /\ pushes (fst p) = pushes s /\ pushes (fst d) = pushes s
  /\ failedCount (fst p) = wrap32 (failedCount s + 1)
  /\ failedCount (fst d) = wrap32 (failedCount s + 1).
Proof.
  intros Hc Hn Hr Hl Hw. unfold send_pod, send_deployment. rewrite Hc, Hl.
  destruct (SliceStable less_pod _ _) as [ps pk].
  destruct (SliceStable (less_deployment clock) _ _) as [ds dk].
  simpl. rewrite ?Hc, ?Hr. simpl.
  unfold conn_WriteJSON. simpl. rewrite Hn, Hw.
  unfold send_deferred, writeWsError, conn_WriteJSON, failed, pushes. simpl.
  rewrite Hn. simpl. rewrite <- !app_assoc, !omap_app. simpl.
  destruct (report_result o); simpl; rewrite !app_nil_r; repeat split.
Qed.

Lemma send_write_failure_witness :
  snd (send_pod all_events (write_fails three_events) initial)
  = Some "ws write json: broken pipe"
  /\ snd (send_deployment (fun _ => 0) all_events (write_fails three_events) initial)
     = Some "broken pipe".
Proof.
  destruct (send_write_failure (fun _ => 0) all_events (write_fails three_events)
              initial three_events "broken pipe") as (Hp & Hd & _); try reflexivity.
  split; [exact Hp | exact Hd].
Defined.

(** X6: the deployment handler's [send] does nothing to the connection
    and counts no failure when [closeCh] is closed at its start or gets
    closed while the snapshot is built. *)
Theorem send_deployment_cancelled clock filter (o : SendObs) (s : Session)
  (events : list Event) :
  list_result o = inr events ->
  closeCh s || raced o = true ->
  let r := send_deployment clock filter o s in
  out (fst r) = out s /\ failedCount (fst r) = failedCount s /\ snd r = None
  /\ closeCh (fst r) = true.
Proof.
  intros Hl Hc. unfold send_deployment. rewrite Hl.
  destruct (closeCh s) eqn:Hs; simpl in *; [repeat split; exact Hs|].
  rewrite Hc.
  destruct (SliceStable _ _ _) as [? ?]; simpl.
  repeat split.
Qed.

Lemma send_deployment_cancelled_witness :
  out (fst (send_deployment (fun _ => 0) all_events
              {| list_result := inr three_events; raced := true;
                 write_result := None; report_result := None |} initial)) = [].
Proof.
  apply (send_deployment_cancelled (fun _ => 0) all_events
           {| list_result := inr three_events; raced := true;
              write_result := None; report_result := None |} initial three_events);
    reflexivity.
Defined.

(** ** Cancellation *)

(** X7: requesting the close twice is the same as requesting it once,
    and so is [ctx.Done()] and the closing goroutine; a request followed
    by the closing goroutine closes [closeCh], and so does [ctx.Done()];
    a failed read changes nothing but the token. *)
Theorem cancellation_idempotent (s : Session) :
  doClose (doClose s) = doClose s
  /\ ctx_done (ctx_done s) = ctx_done s
  /\ forward (forward s) = forward s
  /\ closeCh (forward (doClose s)) = true
  /\ closeCh (ctx_done s) = true
  /\ closeCh (doClose s) = closeCh s /\ out (doClose s) = out s
  /\ failedCount (doClose s) = failedCount s.
Proof.
  unfold doClose, ctx_done, forward.
  repeat split; destruct (closeCh s) eqn:Hc; simpl; rewrite ?Hc; simpl;
    try reflexivity; try assumption.
  destruct (toClose s) eqn:Ht; simpl; rewrite ?Hc, ?Ht; reflexivity.
Qed.

Lemma step_closed v clock filter s st :
  closeCh s = true ->
  let s' := step v clock filter s st in
  closeCh s' = true /\ out s' = out s /\ failedCount s' = failedCount s.
Proof.
  intros Hc.
  assert (Hsend : forall o, fst (send v clock filter o s) = s).
  { intros o. apply send_frame, Hc. }
  destruct st as [o|[event|] o|w| | |]; cbn [step]; cbv zeta.
  - rewrite Hsend. auto.
  - destruct (filter event); rewrite ?Hsend; auto.
  - auto.
  - destruct (returned s); [auto|].
    unfold watchdog. rewrite Hc. unfold handler_exit, writeWsError. simpl. auto.
  - simpl. auto.
  - unfold ctx_done. rewrite Hc. auto.
  - unfold forward. rewrite Hc. auto.
Qed.

(** X8: once [closeCh] is closed it stays closed, and the session
    calls neither [conn.WriteJSON] nor [time.Sleep] any more and counts
    no further failure, whatever happens. *)
Theorem closed_session_is_silent v clock filter (steps : list Step) (s : Session) :
  closeCh s = true ->
  let s' := run v clock filter steps s in
  closeCh s' = true /\ out s' = out s /\ failedCount s' = failedCount s.
Proof.
  unfold run. revert s.
  induction steps as [|st steps IH]; intros s Hc; simpl; [auto|].
  destruct (step_closed v clock filter s st Hc) as (Hc' & Ho & Hf).
  destruct (IH _ Hc') as (Hc'' & Ho' & Hf').
  rewrite <- Ho, <- Hf. auto.
Qed.

Lemma closed_session_is_silent_witness :
  out (run PodScoped (fun _ => 0) all_events
         [Trigger (delivered three_events); Notify (Some (ev "a" "m" 0 3 0)) list_fails;
          Poll None; Trigger (write_fails [])] cancelled) = [].
Proof.
  apply (closed_session_is_silent PodScoped (fun _ => 0) all_events
           [Trigger (delivered three_events); Notify (Some (ev "a" "m" 0 3 0)) list_fails;
            Poll None; Trigger (write_fails [])] cancelled).
  reflexivity.
Defined.

(** X9: a client that goes away ends the session quietly.  After a
    failed read and the closing goroutine, or after [ctx.Done()], the
    next iteration of the watchdog loop returns without an error, even
    when more than [maxFailed] sends have failed: nothing is written,
    no failure is counted, the connection is closed. *)
Theorem disconnect_ends_quietly v clock filter (s : Session) (w : option error) :
  returned s = None ->
  (forall s', s' = run v clock filter [ReadErr; Forward; Poll w] s
              \/ s' = run v clock filter [CtxDone; Poll w] s ->
     returned s' = Some None /\ out s' = out s /\ failedCount s' = failedCount s
     /\ closeCh s' = true /\ connClosed s' = true).
Proof.
  intros Hret s' [-> | ->]; unfold run; simpl;
    unfold forward, ctx_done, doClose; simpl;
    destruct (closeCh s) eqn:Hc; simpl; rewrite ?Hret; simpl;
    unfold watchdog; simpl; rewrite ?Hc; simpl; auto.
Qed.

Lemma disconnect_ends_quietly_witness :
  returned (run PodScoped (fun _ => 0) all_events [ReadErr; Forward; Poll None]
              (run PodScoped (fun _ => 0) all_events eleven_failures initial))
  = Some None.
Proof.
  apply (disconnect_ends_quietly PodScoped (fun _ => 0) all_events
           (run PodScoped (fun _ => 0) all_events eleven_failures initial) None).
  - vm_compute. reflexivity.
  - left. reflexivity.
Defined.

(** ** The handler's return *)

Lemma step_returned v clock filter s st e :
  returned s = Some e ->
  returned (step v clock filter s st) = Some e.
Proof.
  intros Hr. destruct st as [o|[event|] o|w| | |]; cbn [step].
  - destruct (send_frame v clock filter o s) as (_ & _ & _ & -> & _). exact Hr.
  - destruct (filter event); [|exact Hr].
    destruct (send_frame v clock filter o s) as (_ & _ & _ & -> & _). exact Hr.
  - exact Hr.
  - rewrite Hr. exact Hr.
  - exact Hr.
  - unfold ctx_done. destruct (closeCh s); exact Hr.
  - unfold forward. destruct (closeCh s), (toClose s); exact Hr.
Qed.

Lemma step_conn_returned v clock filter s st :
  (returned s = None <-> connClosed s = false) ->
  (returned (step v clock filter s st) = None
   <-> connClosed (step v clock filter s st) = false).
Proof.
  intros Hi. destruct st as [o|[event|] o|w| | |]; cbn [step].
  - destruct (send_frame v clock filter o s) as (_ & -> & _ & -> & _). exact Hi.
  - destruct (filter event); [|exact Hi].
    destruct (send_frame v clock filter o s) as (_ & -> & _ & -> & _). exact Hi.
  - exact Hi.
  - destruct (returned s) eqn:Hr; [rewrite Hr; exact Hi|].
    destruct (watchdog s); [|rewrite Hr; exact Hi].
    unfold handler_exit. simpl. split; discriminate.
  - exact Hi.
  - unfold ctx_done. destruct (closeCh s); exact Hi.
  - unfold forward. destruct (closeCh s), (toClose s); exact Hi.
Qed.

(** X10: the handler returns once.  On a session started by a handler
    the connection is closed exactly when the handler has returned; the
    error it returned with stays, and further iterations of the
    watchdog loop change nothing. *)
Theorem handler_returns_once v clock filter (steps : list Step) :
  let s := run v clock filter steps initial in
  (returned s = None <-> connClosed s = false)
  /\ forall e, returned s = Some e ->
       (forall later, returned (run v clock filter later s) = Some e)
       /\ forall w, step v clock filter s (Poll w) = s.
Proof.
  split.
  - induction steps as [|st steps IH] using rev_ind; [split; reflexivity|].
    rewrite run_app. apply step_conn_returned, IH.
  - intros e. generalize (run v clock filter steps initial). intros s Hr. split.
    + intros later. unfold run. revert s Hr.
      induction later as [|st later IH]; intros s Hr; simpl; [exact Hr|].
      apply IH, step_returned, Hr.
    + intros w. cbn [step]. rewrite Hr. reflexivity.
Qed.

Lemma handler_returns_once_witness :
  returned (run PodScoped (fun _ => 0) all_events
              [Trigger (delivered three_events); Poll (Some "broken pipe")]
              (run PodScoped (fun _ => 0) all_events
                 (eleven_failures ++ [Poll None]) initial))
  = Some (Some too_frequently).
Proof.
  apply (handler_returns_once PodScoped (fun _ => 0) all_events
           (eleven_failures ++ [Poll None])).
  vm_compute. reflexivity.
Defined.

(** ** The counter and the cooldowns *)

(** X11: on a session started by a handler, the failure counter is the
    number of ten-second cooldowns taken so far, one for each [send]
    that ended with an error (as long as there are fewer than 2^31). *)
Theorem failed_count_counts_failures v clock filter (steps : list Step) :
  let s := run v clock filter steps initial in
  failures s < 2 ^ 31 -> failedCount s = failures s.
Proof.
  intros s Hlt.
  destruct (run_invariant v clock filter steps) as [Hc _]. fold s in Hc.
  rewrite Hc. apply wrap32_id. unfold failures in *. lia.
Qed.

Lemma failed_count_counts_failures_witness :
  failedCount (run DeploymentScoped (fun _ => 0) all_events
                 [Trigger list_fails; Trigger (delivered three_events);
                  Notify (Some (ev "a" "m" 0 3 0)) (write_fails three_events)] initial)
  = failures (run DeploymentScoped (fun _ => 0) all_events
                [Trigger list_fails; Trigger (delivered three_events);
                 Notify (Some (ev "a" "m" 0 3 0)) (write_fails three_events)] initial).
Proof.
  apply (failed_count_counts_failures DeploymentScoped (fun _ => 0) all_events
           [Trigger list_fails; Trigger (delivered three_events);
            Notify (Some (ev "a" "m" 0 3 0)) (write_fails three_events)]).
  vm_compute. reflexivity.
Defined.

(** ** Reporting a failed setup *)

(** X12: a handler whose setup fails after the upgrade reports the
    error it returns in exactly one error envelope and closes the
    connection; when the upgrade itself fails nothing is written.  A
    failure to get the informer is reported as
    "get event informer: ...". *)
Theorem setup_error_reported_once (KindPod LabelKey : string) (clock : Clock)
  (o0 : SendObs) (steps : list Step) :
  (forall req : PodRequest,
     let r := GetPodKubeEvents KindPod clock req o0 steps in
     p_fails_early req || p_fails_late KindPod req = true ->
     exists e, returned (snd r) = Some (Some e)
       /\ (p_Upgrade req = None ->
           out (snd r) = [WriteJSON (error_envelope e) (p_report req)]
           /\ connClosed (snd r) = true)
       /\ (p_Upgrade req <> None -> out (snd r) = [])
       /\ (p_fails_early req = false ->
           forall f, GetPodKubeEvents_filter KindPod req = inr f ->
           forall e', p_GetEventInformer req = Some e' ->
           e = "get event informer: " +:+ e'))
  /\ (forall req : DeploymentRequest,
        let r := GetDeploymentKubeEvents KindPod LabelKey clock req o0 steps in
        d_fails_early req || d_fails_late KindPod LabelKey req = true ->
        exists e, returned (snd r) = Some (Some e)
          /\ (d_Upgrade req = None ->
              out (snd r) = [WriteJSON (error_envelope e) (d_report req)]
              /\ connClosed (snd r) = true)
          /\ (d_Upgrade req <> None -> out (snd r) = [])).
Proof.
  split; intros req.
  - unfold GetPodKubeEvents, p_fails_early, p_fails_late.
    destruct (p_Upgrade req) as [e|]; simpl.
    { intros _. exists e. repeat split; try discriminate; congruence. }
    destruct (p_GetCluster req) as [e|]; simpl.
    { intros _. exists e. repeat split; try discriminate; congruence. }
    destruct (p_canView req) as [e|]; simpl.
    { intros _. exists e. repeat split; try discriminate; congruence. }
    destruct (GetPodKubeEvents_filter KindPod req) as [e|f]; simpl.
    { intros _. exists e. repeat split; try discriminate; congruence. }
    destruct (p_GetEventInformer req) as [e|]; simpl; [|discriminate].
    intros _. exists (errors.Wrap e "get event informer").
    repeat split; try discriminate; try congruence.
    intros _ f' _ e' [= ->]. reflexivity.
  - unfold GetDeploymentKubeEvents, d_fails_early, d_fails_late.
    destruct (d_Upgrade req) as [e|]; simpl.
    { intros _. exists e. repeat split; try discriminate; congruence. }
    destruct (d_GetDeployment req) as [e|deployment]; simpl.
    { intros _. exists e. repeat split; try discriminate; congruence. }
    destruct (d_canView req) as [e|]; simpl.
    { intros _. exists e. repeat split; try discriminate; congruence. }
    destruct (d_GetCluster req) as [e|]; simpl.
    { intros _. exists e. repeat split; try discriminate; congruence. }
    destruct (GetDeploymentKubeEvents_filter KindPod LabelKey req deployment)
      as [e|f]; simpl.
    { intros _. exists e. repeat split; try discriminate; congruence. }
    destruct (d_GetEventInformer req) as [e|]; simpl; [|discriminate].
    intros _. exists (errors.Wrap e "get event informer").
    repeat split; try discriminate; congruence.
Qed.

Lemma setup_error_reported_once_witness :
  exists e,
    returned (snd (GetPodKubeEvents "Pod" (fun _ => 0) req_no_informer
                     (delivered []) [])) = Some (Some e)
    /\ e = "get event informer: cache sync timeout".
Proof.
  destruct (proj1 (setup_error_reported_once "Pod" "yatai.ai/deployment" (fun _ => 0)
                     (delivered []) []) req_no_informer)
    as (e & Hr & _ & _ & Hw); [reflexivity|].
  exists e. split; [exact Hr|].
  apply (Hw eq_refl all_events eq_refl "cache sync timeout" eq_refl).
Defined.
